(** * SystemBase: dependency tickets, cache-entry declaration, naming

    A shallow embedding of [drake/systems/framework/system_base.h].

    The header is embedded member function by member function.  A
    [SystemBase] object is a record of its data members; its non-const
    member functions are computations in a state-and-failure monad [M]
    over that record (a C++ exception or a failed [DRAKE_DEMAND] leaves
    the object as it was at the point of failure); its const member
    functions are functions of the record.

    Three things the header relies on are not part of it and are kept
    abstract or modelled:
    - the well-known ticket constants of [framework_common.h] are the
      fields of the class [BuiltInTicketNumbers], and
      [kNextAvailableTicket] is modelled from the specification;
    - the value types storable in an [AbstractValue] form a universe of
      codes, the class [ValueUniverse];
    - [CacheEntry], [ContextBase] and the body of the non-template
      [DeclareCacheEntry] are modelled from the specification; each such
      definition says so.

    [DependencyTicket] and [CacheIndex] wrap a C++ [int]; they are
    embedded as [Z].  Running an [int] out of range is undefined
    behaviour in the source, so no wrap-around is written out: the
    theorems on the tickets a counter issues assume that the counter
    stays within [int] ([counter_has_room]), where the arithmetic of the
    source is that of [Z]. *)

From stdpp Require Import prelude strings.
From Stdlib Require Import Eqdep_dec.

Open Scope Z_scope.
Set Warnings "-register-all".

(** ** Failures and results *)

(** The ways in which a call into the header can fail. *)
Inductive Failure : Type :=
| logic_error (what : string)        (* throw std::logic_error(what) *)
| bad_cast                           (* dynamic_cast<const T&> or a checked
                                        value cast found another type *)
| demand_failed (condition : string) (* DRAKE_DEMAND(condition), false *).

Global Instance Failure_eq_dec : EqDecision Failure.
Proof. solve_decision. Defined.

(** The outcome of a call: a value, or the failure that ended it. *)
Inductive Result (A : Type) : Type :=
| Ok (a : A)
| Threw (e : Failure).
Arguments Ok {A} a.
Arguments Threw {A} e.

Global Instance Result_ret : MRet Result := λ A a, Ok a.
Global Instance Result_bind : MBind Result := λ A B f r,
  match r with
  | Ok a => f a
  | Threw e => Threw e
  end.

Definition succeeded {A} (r : Result A) : bool :=
  match r with Ok _ => true | Threw _ => false end.

(** ** Run-time type information *)

(** The dynamic type of a polymorphic object: the name of its
    most-derived class and the names of the classes that class publicly
    and unambiguously derives from. *)
Record TypeInfo : Type := {
  most_derived : string;
  bases : list string
}.

(** [dynamic_cast<const Target*>(p) != nullptr], for [p] pointing to an
    object whose dynamic type is [ti]. *)
Definition dynamic_cast_succeeds (Target : string) (ti : TypeInfo) : bool :=
  bool_decide (Target = most_derived ti) || bool_decide (Target ∈ bases ti).

(** ** Dependency tickets *)

Definition DependencyTicket : Type := Z.
Definition CacheIndex : Type := Z.

(** The well-known enumerators of [internal::BuiltInTicketNumbers] of
    [framework_common.h], which the header only names. *)
Class BuiltInTicketNumbers : Type := {
  kNothingTicket : Z;
  kTimeTicket : Z;
  kAccuracyTicket : Z;
  kQTicket : Z;
  kVTicket : Z;
  kZTicket : Z;
  kXcTicket : Z;
  kXdTicket : Z;
  kXaTicket : Z;
  kXTicket : Z;
  kXcdotTicket : Z;
  kXdhatTicket : Z;
  kConfigurationTicket : Z;
  kVelocityTicket : Z;
  kKinematicsTicket : Z;
  kAllParametersTicket : Z;
  kAllInputPortsTicket : Z;
  kAllSourcesTicket : Z
}.

(** The numbers of the well-known tickets. *)
Definition built_in_ticket_numbers `{BuiltInTicketNumbers} : list Z :=
  [ kAllSourcesTicket; kNothingTicket; kTimeTicket; kAccuracyTicket;
    kQTicket; kVTicket; kZTicket; kXcTicket; kXdTicket; kXaTicket;
    kXTicket; kXcdotTicket; kXdhatTicket; kConfigurationTicket;
    kVelocityTicket; kKinematicsTicket; kAllParametersTicket;
    kAllInputPortsTicket ].

(** Modelled from the spec: [internal::kNextAvailableTicket], the
    closing enumerator of [framework_common.h], which is not part of the
    header: the first number after the last well-known ticket value. *)
Definition kNextAvailableTicket `{BuiltInTicketNumbers} : Z :=
  foldr Z.max kNothingTicket built_in_ticket_numbers + 1.

(** ** Type-erased values *)

(** The concrete types [ValueType] for which [Value<ValueType>] is
    permitted: a code for each, and the Rocq type of its values. *)
Class ValueUniverse : Type := {
  TypeId : Type;
  TypeId_eq_dec :: EqDecision TypeId;
  denote : TypeId → Type
}.

(** [std::is_default_constructible<ValueType>]; [value_initialized] is
    [ValueType{}]. *)
Class DefaultConstructible `{ValueUniverse} (T : TypeId) : Type :=
  value_initialized : denote T.

Section Values.
Context `{ValueUniverse}.

(** Modelled from the spec: [AbstractValue] and [Value<T>] ([value.h]
    is not part of the header): a container holding exactly one value
    of a fixed concrete type, with a dynamic type tag. *)
Record AbstractValue : Type := Make {
  value_type : TypeId;
  payload : denote value_type
}.

(** [AbstractValue::Clone()]: a fresh container with a copy of the
    value. *)
Definition Clone (v : AbstractValue) : AbstractValue :=
  Make (value_type v) (payload v).

(** [result->GetMutableValue<ValueType>()]: the checked cast to the
    concrete type. *)
Definition GetMutableValue (T : TypeId) (v : AbstractValue)
  : Result (denote T) :=
  match decide (value_type v = T) with
  | left e => Ok (eq_rect (value_type v) denote (payload v) T e)
  | right _ => Threw bad_cast
  end.
End Values.

(** ** Contexts *)

(** Modelled from the spec: [ContextBase] ([context_base.h] is not part
    of the header).  A context mirrors its subsystem: it has one storage
    slot per declared cache entry and one subcontext per child
    subsystem, at the same index; [context_type] is its dynamic type. *)
Inductive ContextBase : Type := MakeContextBase {
  context_type : TypeInfo;
  num_cache_slots : Z;
  subcontexts : list ContextBase
}.

(** [dynamic_cast<const MyContext&>(context)]: the same object seen
    through its derived type, or [std::bad_cast]. *)
Definition dynamic_cast_context (MyContext : string) (context : ContextBase)
  : Result ContextBase :=
  if dynamic_cast_succeeds MyContext (context_type context)
  then Ok context
  else Threw bad_cast.

Section Framework.
Context `{BuiltInTicketNumbers} `{ValueUniverse}.

(** ** Cache entries *)

(** [CacheEntry::AllocCallback] and [CacheEntry::CalcCallback]:
    [std::unique_ptr<AbstractValue> Alloc(const ContextBase&)] and
    [void Calc(const ContextBase&, AbstractValue* result)], the latter
    as the function from the container before to the container after. *)
Definition AllocCallback : Type := ContextBase → Result AbstractValue.
Definition CalcCallback : Type :=
  ContextBase → AbstractValue → Result AbstractValue.

(** Modelled from the spec: [CacheEntry] ([cache_entry.h] is not part
    of the header): description, allocator, calculator, prerequisite
    tickets, the assigned cache index and the assigned ticket. *)
Record CacheEntry : Type := {
  description : string;
  alloc_function : AllocCallback;
  calc_function : CalcCallback;
  prerequisites : list DependencyTicket;
  cache_index : CacheIndex;
  ticket : DependencyTicket
}.

(** ** The object *)

(** The data members of [SystemBase], and the dynamic type of the
    object they belong to. *)
Record SystemBase : Type := {
  system_type : TypeInfo;
  cache_entries_ : list CacheEntry;
  next_available_ticket_ : DependencyTicket;
  name_ : string
}.

(** [SystemBase() = default], run as the base-class constructor of an
    object of dynamic type [ti]: the members take their default member
    initializers. *)
Definition SystemBase_default (ti : TypeInfo) : SystemBase :=
  {| system_type := ti;
     cache_entries_ := [];
     next_available_ticket_ := kNextAvailableTicket;
     name_ := "" |}.

(** The pure virtual [DoCheckValidContext], as the concrete system
    class implements it.  ([DoMakeContext] is used only by
    [AllocateContext], whose body is not in the header.) *)
Class SystemVirtuals : Type :=
  DoCheckValidContext : SystemBase → ContextBase → Result unit.

(** ** Non-const member functions: state and failure *)

Definition M (A : Type) : Type := SystemBase → Result A * SystemBase.

Global Instance M_ret : MRet M := λ A a s, (Ok a, s).
Global Instance M_bind : MBind M := λ A B f m s,
  match m s with
  | (Ok a, s') => f a s'
  | (Threw e, s') => (Threw e, s')
  end.

Definition throw {A} (e : Failure) : M A := λ s, (Threw e, s).
Definition gets {A} (f : SystemBase → A) : M A := λ s, (Ok (f s), s).
Definition modify (f : SystemBase → SystemBase) : M unit :=
  λ s, (Ok tt, f s).

(** [DRAKE_DEMAND(condition)]. *)
Definition DRAKE_DEMAND (condition : bool) (text : string) : M unit :=
  if condition then mret tt else throw (demand_failed text).

(** Assignments to single data members. *)
Definition with_name_ (n : string) (s : SystemBase) : SystemBase :=
  {| system_type := system_type s;
     cache_entries_ := cache_entries_ s;
     next_available_ticket_ := next_available_ticket_ s;
     name_ := n |}.
Definition with_next_available_ticket_ (t : DependencyTicket)
    (s : SystemBase) : SystemBase :=
  {| system_type := system_type s;
     cache_entries_ := cache_entries_ s;
     next_available_ticket_ := t;
     name_ := name_ s |}.
Definition with_cache_entries_ (l : list CacheEntry) (s : SystemBase)
  : SystemBase :=
  {| system_type := system_type s;
     cache_entries_ := l;
     next_available_ticket_ := next_available_ticket_ s;
     name_ := name_ s |}.

(** ** Names *)

(** [void set_name(const std::string& name) { name_ = name; }] *)
Definition set_name (name : string) : M unit :=
  modify (with_name_ name).

(** [const std::string& GetSystemName() const { return name_; }] *)
Definition GetSystemName (s : SystemBase) : string := name_ s.

(** ** Context compatibility *)

Section ContextChecks.
Context `{!SystemVirtuals}.

(** [CheckValidContext]: the body is the call of the hook, under a
    note that base class checks are yet to be added. *)
Definition CheckValidContext (s : SystemBase) (context : ContextBase)
  : Result unit :=
  DoCheckValidContext s context.

(** [ThrowIfContextNotCompatible]: calls [CheckValidContext]. *)
Definition ThrowIfContextNotCompatible (s : SystemBase)
    (context : ContextBase) : Result unit :=
  CheckValidContext s context.
End ContextChecks.

(** A const member function called on the current object. *)
Definition const_call {A} (f : SystemBase → Result A) : M A :=
  λ s, (f s, s).

(** ** The cache-entry table *)

(** [int num_cache_entries() const] *)
Definition num_cache_entries (s : SystemBase) : Z :=
  Z.of_nat (length (cache_entries_ s)).

(** [get_cache_entry(index)]: [cache_entries_[index]]; the range check
    is a [DRAKE_ASSERT], armed in Debug builds only, so an index out of
    range has no defined result. *)
Definition get_cache_entry (s : SystemBase) (index : CacheIndex)
  : option CacheEntry :=
  if bool_decide (0 ≤ index < num_cache_entries s)
  then cache_entries_ s !! Z.to_nat index
  else None.

(** ** Well-known tickets *)

Definition all_sources_ticket : DependencyTicket := kAllSourcesTicket.
Definition nothing_ticket : DependencyTicket := kNothingTicket.
Definition time_ticket : DependencyTicket := kTimeTicket.
Definition accuracy_ticket : DependencyTicket := kAccuracyTicket.
Definition q_ticket : DependencyTicket := kQTicket.
Definition v_ticket : DependencyTicket := kVTicket.
Definition z_ticket : DependencyTicket := kZTicket.
Definition xc_ticket : DependencyTicket := kXcTicket.
Definition xd_ticket : DependencyTicket := kXdTicket.
Definition xa_ticket : DependencyTicket := kXaTicket.
Definition all_state_ticket : DependencyTicket := kXTicket.
Definition xcdot_ticket : DependencyTicket := kXcdotTicket.
Definition xdhat_ticket : DependencyTicket := kXdhatTicket.
Definition configuration_ticket : DependencyTicket := kConfigurationTicket.
Definition velocity_ticket : DependencyTicket := kVelocityTicket.
Definition kinematics_ticket : DependencyTicket := kKinematicsTicket.
Definition all_parameters_ticket : DependencyTicket := kAllParametersTicket.
Definition all_input_ports_ticket : DependencyTicket := kAllInputPortsTicket.

(** The tickets the accessors above return. *)
Definition well_known_tickets : list DependencyTicket :=
  [ all_sources_ticket; nothing_ticket; time_ticket; accuracy_ticket;
    q_ticket; v_ticket; z_ticket; xc_ticket; xd_ticket; xa_ticket;
    all_state_ticket; xcdot_ticket; xdhat_ticket; configuration_ticket;
    velocity_ticket; kinematics_ticket; all_parameters_ticket;
    all_input_ports_ticket ].

(** What the header says of [kNextAvailableTicket]: it is the first
    ticket number after all the well-known ones. *)
Definition first_after_well_known (t : DependencyTicket) : Prop :=
  Forall (λ k, k < t) well_known_tickets ∧ t - 1 ∈ well_known_tickets.

(** [cache_entry_ticket(index)] *)
Definition cache_entry_ticket (index : CacheIndex) : M DependencyTicket :=
  n ← gets num_cache_entries;
  DRAKE_DEMAND (bool_decide (0 ≤ index) && bool_decide (index < n))
    "0 <= index && index < num_cache_entries()";;
  entries ← gets cache_entries_;
  match entries !! Z.to_nat index with
  | Some entry => mret (ticket entry)
  | None => throw (demand_failed "cache_entries_[index]")
  end.

(** [assign_next_dependency_ticket()]:
    [return next_available_ticket_++;], on a counter that holds an
    [int].  The equation is that of the source while the incremented
    counter is still an [int]; see [counter_has_room]. *)
Definition assign_next_dependency_ticket : M DependencyTicket :=
  t ← gets next_available_ticket_;
  modify (with_next_available_ticket_ (t + 1));;
  mret t.

(** The range of a 32-bit [int]. *)
Definition int_min : Z := -2147483648.
Definition int_max : Z := 2147483647.

(** The counter of [s] holds an [int] and still holds one after [n]
    more post-increments: none of them overflows. *)
Definition counter_has_room (s : SystemBase) (n : nat) : Prop :=
  int_min ≤ next_available_ticket_ s
  ∧ next_available_ticket_ s + Z.of_nat n ≤ int_max.

(** Issuing [n] tickets in a row. *)
Fixpoint issue_tickets (n : nat) : M (list DependencyTicket) :=
  match n with
  | O => mret []
  | S n' =>
      t ← assign_next_dependency_ticket;
      ts ← issue_tickets n';
      mret (t :: ts)
  end.

(** ** Declaring cache entries *)

(** The messages of the two rejections of a prerequisite list. *)
Definition empty_prerequisites_what : string :=
  "Cannot create a CacheEntry with an empty prerequisites list.".
Definition nothing_not_sole_what : string :=
  "nothing_ticket() must be the only entry of a prerequisite list.".

(** [nothing_ticket()] is in the list and is not its only element. *)
Definition nothing_not_sole (l : list DependencyTicket) : bool :=
  bool_decide (nothing_ticket ∈ l) && bool_decide (1 < length l)%nat.

(** Modelled from the spec: the body of the general (non-template)
    [DeclareCacheEntry], which the header declares and documents and
    [system_base.cc] defines.  An explicitly empty prerequisite list is
    rejected with [std::logic_error]; [nothing_ticket()] combined with
    anything else is rejected; an accepted declaration takes the next
    cache index and the next ticket and appends the entry to the table.
    Neither the spec nor the header says whether the ticket is taken
    before or after an empty list is found; the list is examined first
    here, and the theorem on the rejected empty list is stated without
    the counter. *)
Definition DeclareCacheEntry (description : string)
    (alloc_function : AllocCallback) (calc_function : CalcCallback)
    (prerequisites_of_calc : list DependencyTicket) : M CacheEntry :=
  if bool_decide (prerequisites_of_calc = []) then
    throw (logic_error empty_prerequisites_what)
  else if nothing_not_sole prerequisites_of_calc then
    throw (logic_error nothing_not_sole_what)
  else
    index ← gets num_cache_entries;
    ticket ← assign_next_dependency_ticket;
    let entry :=
      {| description := description;
         alloc_function := alloc_function;
         calc_function := calc_function;
         prerequisites := prerequisites_of_calc;
         cache_index := index;
         ticket := ticket |} in
    modify (λ s, with_cache_entries_ (cache_entries_ s ++ [entry]) s);;
    mret entry.

(** Member functions [ValueType (MySystem::*make)(const MyContext&)
    const] and [void (MySystem::*calc)(const MyContext&, ValueType* v)
    const], bound to the declaring object.  What they read of the
    derived object is fixed once it is constructed and is part of the
    function; their reads of the base-class members are outside the
    model. *)
Definition MakeMethod (ValueType : TypeId) : Type :=
  ContextBase → Result (denote ValueType).
Definition CalcMethod (ValueType : TypeId) : Type :=
  ContextBase → denote ValueType → Result (denote ValueType).

(** The allocator lambda of the make-and-calc overload. *)
Definition make_alloc_callback (MyContext : string) (ValueType : TypeId)
    (make : MakeMethod ValueType) : AllocCallback :=
  λ context,
    typed_context ← dynamic_cast_context MyContext context;
    v ← make typed_context;
    mret (Make ValueType v).

(** The allocator lambda of the model-value overload; it captures
    [owned_model]. *)
Definition model_alloc_callback (model : AbstractValue) : AllocCallback :=
  λ _, mret (Clone model).

(** The calculator lambda, which the make-and-calc and the model-value
    overloads both write out. *)
Definition method_calc_callback (MyContext : string) (ValueType : TypeId)
    (calc : CalcMethod ValueType) : CalcCallback :=
  λ context result,
    typed_context ← dynamic_cast_context MyContext context;
    typed_result ← GetMutableValue ValueType result;
    v ← calc typed_context typed_result;
    mret (Make ValueType v).

(** [auto this_ptr = dynamic_cast<const MySystem*>(this);
     DRAKE_DEMAND(this_ptr != nullptr);] *)
Definition demand_this_is (MySystem : string) : M unit :=
  this_ptr ← gets (λ s, dynamic_cast_succeeds MySystem (system_type s));
  DRAKE_DEMAND this_ptr "this_ptr != nullptr".

(** The overload taking [make] and [calc] member functions. *)
Definition DeclareCacheEntry_make_calc (MySystem MyContext : string)
    (ValueType : TypeId) (description : string)
    (make : MakeMethod ValueType) (calc : CalcMethod ValueType)
    (prerequisites_of_calc : list DependencyTicket) : M CacheEntry :=
  demand_this_is MySystem;;
  let alloc_callback := make_alloc_callback MyContext ValueType make in
  let calc_callback := method_calc_callback MyContext ValueType calc in
  DeclareCacheEntry description alloc_callback calc_callback
    prerequisites_of_calc.

(** The overload taking a model value and a [calc] member function. *)
Definition DeclareCacheEntry_model (MySystem MyContext : string)
    (ValueType : TypeId) (description : string)
    (model_value : denote ValueType) (calc : CalcMethod ValueType)
    (prerequisites_of_calc : list DependencyTicket) : M CacheEntry :=
  demand_this_is MySystem;;
  let owned_model := Make ValueType model_value in
  let alloc_callback := model_alloc_callback owned_model in
  let calc_callback := method_calc_callback MyContext ValueType calc in
  DeclareCacheEntry description alloc_callback calc_callback
    prerequisites_of_calc.

(** The overload taking just a [calc] member function. *)
Definition DeclareCacheEntry_calc (MySystem MyContext : string)
    (ValueType : TypeId) `{!DefaultConstructible ValueType}
    (description : string) (calc : CalcMethod ValueType)
    (prerequisites_of_calc : list DependencyTicket) : M CacheEntry :=
  DeclareCacheEntry_model MySystem MyContext ValueType description
    value_initialized calc prerequisites_of_calc.

(** *** Call expressions *)

(** The four overloads, with every argument but the last. *)
Inductive Overload : Type :=
| callbacks (description : string) (alloc_function : AllocCallback)
    (calc_function : CalcCallback)
| make_and_calc (MySystem MyContext : string) (ValueType : TypeId)
    (description : string) (make : MakeMethod ValueType)
    (calc : CalcMethod ValueType)
| model_and_calc (MySystem MyContext : string) (ValueType : TypeId)
    (description : string) (model_value : denote ValueType)
    (calc : CalcMethod ValueType)
| calc_only (MySystem MyContext : string) (ValueType : TypeId)
    (dc : DefaultConstructible ValueType)
    (description : string) (calc : CalcMethod ValueType).

(** The default argument of every overload:
    [prerequisites_of_calc = {all_sources_ticket()}]. *)
Definition default_prerequisites : list DependencyTicket :=
  [all_sources_ticket].

(** A call of an overload; [None] is the call that leaves the
    prerequisite list out. *)
Definition declare (o : Overload)
    (prerequisites_of_calc : option (list DependencyTicket))
  : M CacheEntry :=
  let prerequisites := default default_prerequisites prerequisites_of_calc in
  match o with
  | callbacks d a c => DeclareCacheEntry d a c prerequisites
  | make_and_calc Sys Ctx T d make calc =>
      DeclareCacheEntry_make_calc Sys Ctx T d make calc prerequisites
  | model_and_calc Sys Ctx T d model calc =>
      DeclareCacheEntry_model Sys Ctx T d model calc prerequisites
  | calc_only Sys Ctx T dc d calc =>
      DeclareCacheEntry_calc Sys Ctx T d calc prerequisites
  end.

(** The class whose member functions a bound-method overload is given,
    if it is one. *)
Definition owning_class (o : Overload) : option string :=
  match o with
  | callbacks _ _ _ => None
  | make_and_calc Sys _ _ _ _ _ => Some Sys
  | model_and_calc Sys _ _ _ _ _ => Some Sys
  | calc_only Sys _ _ _ _ _ => Some Sys
  end.

(** The runtime type check of the overload passes on [s]. *)
Definition this_matches (o : Overload) (s : SystemBase) : bool :=
  match owning_class o with
  | None => true
  | Some Sys => dynamic_cast_succeeds Sys (system_type s)
  end.

(** What a client does to a system while it declares its resources. *)
Inductive Call : Type :=
| call_declare (o : Overload) (p : option (list DependencyTicket))
| call_set_name (name : string).

(** One call; a failed declaration is caught by the caller. *)
Definition perform (c : Call) (s : SystemBase)
  : option CacheEntry * SystemBase :=
  match c with
  | call_declare o p =>
      match declare o p s with
      | (Ok entry, s') => (Some entry, s')
      | (Threw _, s') => (None, s')
      end
  | call_set_name n => (None, snd (set_name n s))
  end.

(** A run of calls: the handles of the declarations that succeeded, in
    order, and the object afterwards. *)
Fixpoint perform_all (calls : list Call) (s : SystemBase)
  : list CacheEntry * SystemBase :=
  match calls with
  | [] => ([], s)
  | c :: rest =>
      let '(r, s') := perform c s in
      let '(rs, s'') := perform_all rest s' in
      (from_option (λ e, [e]) [] r ++ rs, s'')
  end.

(** The cache-entry count of the context differs from that of the
    system: the base-layer structural property of a context that the
    header's own data can express. *)
Definition entry_count_mismatch (s : SystemBase) (context : ContextBase)
  : Prop :=
  num_cache_slots context ≠ num_cache_entries s.

(** ** Outcomes, named *)

(** The object after a declaration that went through. *)
Definition declared (e : CacheEntry) (s : SystemBase) : SystemBase :=
  {| system_type := system_type s;
     cache_entries_ := cache_entries_ s ++ [e];
     next_available_ticket_ := next_available_ticket_ s + 1;
     name_ := name_ s |}.

(** The entry a declaration on [s] creates. *)
Definition new_entry (d : string) (a : AllocCallback) (c : CalcCallback)
    (l : list DependencyTicket) (s : SystemBase) : CacheEntry :=
  {| description := d;
     alloc_function := a;
     calc_function := c;
     prerequisites := l;
     cache_index := num_cache_entries s;
     ticket := next_available_ticket_ s |}.

(** The callbacks an overload hands to the general form, and its
    description. *)
Definition alloc_of (o : Overload) : AllocCallback :=
  match o with
  | callbacks _ a _ => a
  | make_and_calc _ Ctx T _ make _ => make_alloc_callback Ctx T make
  | model_and_calc _ _ T _ model _ => model_alloc_callback (Make T model)
  | calc_only _ _ T dc _ _ =>
      model_alloc_callback (Make T (@value_initialized _ T dc))
  end.
Definition calc_of (o : Overload) : CalcCallback :=
  match o with
  | callbacks _ _ c => c
  | make_and_calc _ Ctx T _ _ calc => method_calc_callback Ctx T calc
  | model_and_calc _ Ctx T _ _ calc => method_calc_callback Ctx T calc
  | calc_only _ Ctx T _ _ calc => method_calc_callback Ctx T calc
  end.
Definition description_of (o : Overload) : string :=
  match o with
  | callbacks d _ _ => d
  | make_and_calc _ _ _ d _ _ => d
  | model_and_calc _ _ _ d _ _ => d
  | calc_only _ _ _ _ d _ => d
  end.
(** ** Runs of the member functions the header defines *)

(** A call of a member function that acts on the object and whose body
    is in the header. *)
Inductive MemberCall : Type :=
| member_set_name (name : string)
| member_cache_entry_ticket (index : CacheIndex)
| member_assign_next_dependency_ticket.

(** One such call: the ticket it issued, if it is an issuance, and the
    object afterwards; a failed [DRAKE_DEMAND] is caught by the caller. *)
Definition run_member (c : MemberCall) (s : SystemBase)
  : option DependencyTicket * SystemBase :=
  match c with
  | member_set_name name => (None, snd (set_name name s))
  | member_cache_entry_ticket index =>
      (None, snd (cache_entry_ticket index s))
  | member_assign_next_dependency_ticket =>
      match assign_next_dependency_ticket s with
      | (Ok t, s') => (Some t, s')
      | (Threw _, s') => (None, s')
      end
  end.

(** A run of such calls: the tickets issued, in order, and the object
    afterwards. *)
Fixpoint run_members (calls : list MemberCall) (s : SystemBase)
  : list DependencyTicket * SystemBase :=
  match calls with
  | [] => ([], s)
  | c :: rest =>
      let '(t, s') := run_member c s in
      let '(ts, s'') := run_members rest s' in
      (from_option (λ t, [t]) [] t ++ ts, s'')
  end.

(** The names a run supplies to [set_name], in order. *)
Definition names_supplied (calls : list MemberCall) : list string :=
  omap (λ c, match c with member_set_name n => Some n | _ => None end) calls.

(** The number of issuances in a run. *)
Definition issuances (calls : list MemberCall) : nat :=
  length (omap (λ c, match c with
                     | member_assign_next_dependency_ticket => Some tt
                     | _ => None
                     end) calls).
End Framework.

(** * A small program

    One numbering of the well-known tickets, one universe of value types
    and a few objects, to run the definitions on. *)
Module Sample.
(** The well-known tickets numbered from 0 in the order of the class
    [BuiltInTicketNumbers]; the next available one is then 18. *)
#[export] Instance numbers : BuiltInTicketNumbers := {|
  kNothingTicket := 0;
  kTimeTicket := 1;
  kAccuracyTicket := 2;
  kQTicket := 3;
  kVTicket := 4;
  kZTicket := 5;
  kXcTicket := 6;
  kXdTicket := 7;
  kXaTicket := 8;
  kXTicket := 9;
  kXcdotTicket := 10;
  kXdhatTicket := 11;
  kConfigurationTicket := 12;
  kVelocityTicket := 13;
  kKinematicsTicket := 14;
  kAllParametersTicket := 15;
  kAllInputPortsTicket := 16;
  kAllSourcesTicket := 17
|}.

Inductive ValueTypeId : Type := t_int | t_bool | t_string.

#[export] Instance ValueTypeId_eq_dec : EqDecision ValueTypeId.
Proof. solve_decision. Defined.

#[export] Instance values : ValueUniverse := {|
  TypeId := ValueTypeId;
  denote := λ t,
    match t with
    | t_int => Z
    | t_bool => bool
    | t_string => string
    end
|}.

#[export] Instance int_default : DefaultConstructible t_int := 0.

(** A leaf system class and an unrelated one. *)
Definition Pendulum : TypeInfo :=
  {| most_derived := "Pendulum"; bases := ["LeafSystem"; "SystemBase"] |}.
Definition Adder : TypeInfo :=
  {| most_derived := "Adder"; bases := ["LeafSystem"; "SystemBase"] |}.

Definition LeafContext : TypeInfo :=
  {| most_derived := "LeafContext"; bases := ["Context"; "ContextBase"] |}.

(** A context with three cache slots and two subcontexts. *)
Definition big_context : ContextBase :=
  MakeContextBase LeafContext 3
    [MakeContextBase LeafContext 0 []; MakeContextBase LeafContext 0 []].

(** A concrete system class whose hook accepts every context. *)
Definition accepts_all : SystemVirtuals := λ _ _, Ok tt.

(** A [make] and a [calc] member function for [int] values. *)
Definition MakeZero : MakeMethod t_int := λ _, Ok 0.
Definition CalcSlots : CalcMethod t_int :=
  λ context _, Ok (num_cache_slots context).

Definition alloc_zero : AllocCallback := λ _, Ok (Make t_int 0).
Definition calc_keep : CalcCallback := λ _ v, Ok v.

(** A newly constructed pendulum. *)
Definition pendulum : SystemBase := SystemBase_default Pendulum.

(** What its constructor then does: a constant entry through the
    general form, a name with the path delimiter in it, and a
    declaration with an empty list, which is caught. *)
Definition first_calls : list Call :=
  [ call_declare (callbacks "constant" alloc_zero calc_keep)
      (Some [nothing_ticket]);
    call_set_name "a/b";
    call_declare (callbacks "rejected" alloc_zero calc_keep) (Some []) ].

Definition constant_entry : CacheEntry :=
  new_entry "constant" alloc_zero calc_keep [nothing_ticket] pendulum.

Definition named_pendulum : SystemBase :=
  snd (perform_all first_calls pendulum).

(** One more declaration, by the overload taking only [calc], with the
    prerequisite list left out. *)
Definition slots_overload : Overload :=
  calc_only "Pendulum" "LeafContext" t_int _ "slots" CalcSlots.

Definition slots_entry : CacheEntry :=
  new_entry "slots" (model_alloc_callback (Make t_int 0))
    (method_calc_callback "LeafContext" t_int CalcSlots)
    [all_sources_ticket] named_pendulum.

(** A declaration through member functions of another class. *)
Definition adder_overload : Overload :=
  make_and_calc "Adder" "LeafContext" t_int "sum" MakeZero CalcSlots.

(** Issuances interleaved with a renaming and two lookups, one of them
    out of range. *)
Definition interleaved_calls : list MemberCall :=
  [ member_assign_next_dependency_ticket;
    member_set_name "a/b";
    member_cache_entry_ticket 0;
    member_assign_next_dependency_ticket;
    member_cache_entry_ticket 7;
    member_assign_next_dependency_ticket ].
End Sample.

(** * Properties *)

Section Properties.
Context `{BuiltInTicketNumbers} `{ValueUniverse}.

Implicit Types (s : SystemBase) (o : Overload).
Implicit Types (l : list DependencyTicket) (e : CacheEntry).

(** ** Values *)

Lemma GetMutableValue_Make (T : TypeId) (v : denote T) :
  GetMutableValue T (Make T v) = Ok v.
Proof.
  unfold GetMutableValue; simpl.
  destruct (decide (T = T)) as [E|NE]; [|done].
  by rewrite (UIP_dec TypeId_eq_dec E eq_refl).
Qed.

(** ** One step of each member function *)

Lemma assign_next_dependency_ticket_run s :
  assign_next_dependency_ticket s =
    (Ok (next_available_ticket_ s),
     with_next_available_ticket_ (next_available_ticket_ s + 1) s).
Proof. reflexivity. Qed.

Lemma nothing_not_sole_singleton (t : DependencyTicket) :
  nothing_not_sole [t] = false.
Proof.
  apply andb_false_iff; right.
  apply bool_decide_eq_false_2. simpl. lia.
Qed.

Lemma nothing_not_sole_true l (t : DependencyTicket) :
  nothing_ticket ∈ l → t ∈ l → t ≠ nothing_ticket →
  nothing_not_sole l = true.
Proof.
  intros Hn Ht Hne. unfold nothing_not_sole.
  rewrite bool_decide_eq_true_2 by done. simpl.
  apply bool_decide_eq_true_2.
  destruct l as [|a [|b l']]; simpl; [by inversion Hn| |lia].
  apply list_elem_of_singleton in Hn, Ht. congruence.
Qed.

Lemma DeclareCacheEntry_empty d a c s :
  DeclareCacheEntry d a c [] s =
    (Threw (logic_error empty_prerequisites_what), s).
Proof. reflexivity. Qed.

Lemma DeclareCacheEntry_nothing_not_sole d a c l s :
  nothing_not_sole l = true →
  DeclareCacheEntry d a c l s =
    (Threw (logic_error nothing_not_sole_what), s).
Proof.
  intros Hn. unfold DeclareCacheEntry.
  destruct l as [|t l']; [done|].
  rewrite bool_decide_eq_false_2 by done.
  by rewrite Hn.
Qed.

Lemma DeclareCacheEntry_accepted d a c l s :
  l ≠ [] → nothing_not_sole l = false →
  DeclareCacheEntry d a c l s =
    (Ok (new_entry d a c l s), declared (new_entry d a c l s) s).
Proof.
  intros Hl Hn. unfold DeclareCacheEntry.
  rewrite bool_decide_eq_false_2 by done.
  by rewrite Hn.
Qed.

(** The three outcomes of the general form, in one equation. *)
Lemma DeclareCacheEntry_run d a c l s :
  DeclareCacheEntry d a c l s =
    if bool_decide (l = []) then
      (Threw (logic_error empty_prerequisites_what), s)
    else if nothing_not_sole l then
      (Threw (logic_error nothing_not_sole_what), s)
    else (Ok (new_entry d a c l s), declared (new_entry d a c l s) s).
Proof.
  case_bool_decide as Hl; [by subst|].
  destruct (nothing_not_sole l) eqn:Hn.
  - by apply DeclareCacheEntry_nothing_not_sole.
  - by apply DeclareCacheEntry_accepted.
Qed.

Lemma demand_this_is_run (MySystem : string) s :
  demand_this_is MySystem s =
    if dynamic_cast_succeeds MySystem (system_type s)
    then (Ok tt, s)
    else (Threw (demand_failed "this_ptr != nullptr"), s).
Proof.
  unfold demand_this_is, DRAKE_DEMAND, mbind, M_bind, gets. simpl.
  by destruct (dynamic_cast_succeeds _ _).
Qed.

(** A bound-method overload is the runtime type check followed by the
    general form. *)
Lemma guarded_run {A} (MySystem : string) (m : M A) s :
  (demand_this_is MySystem;; m) s =
    if dynamic_cast_succeeds MySystem (system_type s)
    then m s
    else (Threw (demand_failed "this_ptr != nullptr"), s).
Proof.
  unfold mbind at 1. unfold M_bind. rewrite demand_this_is_run.
  by destruct (dynamic_cast_succeeds _ _).
Qed.

(** Every call of every overload, in one equation. *)
Lemma declare_run o (p : option (list DependencyTicket)) s :
  declare o p s =
    if this_matches o s
    then DeclareCacheEntry (description_of o) (alloc_of o) (calc_of o)
           (default default_prerequisites p) s
    else (Threw (demand_failed "this_ptr != nullptr"), s).
Proof.
  destruct o; unfold declare, this_matches; simpl; [done|..];
    unfold DeclareCacheEntry_calc, DeclareCacheEntry_model,
      DeclareCacheEntry_make_calc;
    by rewrite guarded_run.
Qed.

(** ** Tickets *)

Lemma issue_tickets_run (n : nat) s :
  ∃ s', issue_tickets n s = (Ok (seqZ (next_available_ticket_ s) (Z.of_nat n)), s')
    ∧ next_available_ticket_ s' = next_available_ticket_ s + Z.of_nat n
    ∧ cache_entries_ s' = cache_entries_ s
    ∧ name_ s' = name_ s
    ∧ system_type s' = system_type s.
Proof.
  revert s. induction n as [|n IH]; intros s.
  - exists s. simpl. repeat split. lia.
  - destruct (IH (with_next_available_ticket_
                    (next_available_ticket_ s + 1) s))
      as (s' & Hrun & Hnext & Hentries & Hname & Htype).
    exists s'. simpl in Hrun, Hnext, Hentries, Hname, Htype.
    repeat split; [|lia|done..].
    cbn [issue_tickets]. unfold mbind at 1. unfold M_bind.
    rewrite assign_next_dependency_ticket_run.
    unfold mbind at 1. unfold M_bind. rewrite Hrun.
    rewrite (seqZ_cons _ (Z.of_nat (S n))) by lia.
    unfold mret, M_ret. repeat f_equal; lia.
Qed.

Lemma seqZ_strictly_increasing (m n : Z) (i j : nat) (a b : Z) :
  seqZ m n !! i = Some a → seqZ m n !! j = Some b → (i < j)%nat → a < b.
Proof.
  intros [-> _]%lookup_seqZ [-> _]%lookup_seqZ Hij. lia.
Qed.

Lemma foldr_max_bounds (d : Z) (l : list Z) :
  d ≤ foldr Z.max d l ∧ Forall (λ k, k ≤ foldr Z.max d l) l.
Proof.
  induction l as [|a l [IHd IHl]]; simpl; [by split|].
  split; [lia|]. constructor; [lia|].
  eapply Forall_impl; [exact IHl|]. simpl. lia.
Qed.

Lemma foldr_max_attained (d : Z) (l : list Z) :
  foldr Z.max d l = d ∨ foldr Z.max d l ∈ l.
Proof.
  induction l as [|a l IH]; simpl; [by left|].
  destruct (Z.max_spec a (foldr Z.max d l)) as [[_ ->]|[_ ->]].
  - destruct IH as [->|IH]; [by left|]. right. by constructor.
  - right. constructor.
Qed.

(** The seed of the counter is the first number after the well-known
    tickets: above all of them, and one more than one of them. *)
Lemma kNextAvailableTicket_first_after_well_known :
  first_after_well_known kNextAvailableTicket.
Proof.
  unfold first_after_well_known, kNextAvailableTicket.
  change well_known_tickets with built_in_ticket_numbers.
  destruct (foldr_max_bounds kNothingTicket built_in_ticket_numbers)
    as [_ Hall].
  split.
  - eapply Forall_impl; [exact Hall|]. simpl. lia.
  - replace (foldr Z.max kNothingTicket built_in_ticket_numbers + 1 - 1)
      with (foldr Z.max kNothingTicket built_in_ticket_numbers) by lia.
    destruct (foldr_max_attained kNothingTicket built_in_ticket_numbers)
      as [->|Hin]; [|done].
    unfold built_in_ticket_numbers. constructor. constructor.
Qed.

(** A counter with room for [n] issuances has room for each of them. *)
Lemma seqZ_within_int (m : Z) (n : nat) (t : Z) :
  int_min ≤ m → m + Z.of_nat n ≤ int_max →
  t ∈ seqZ m (Z.of_nat n) → int_min ≤ t ∧ t + 1 ≤ int_max.
Proof. intros Hlo Hhi Ht%elem_of_seqZ. lia. Qed.

(** C2.  While the counter stays within [int], each call of
    [assign_next_dependency_ticket] returns the current value of the
    counter and leaves the counter one higher.  A newly constructed
    system has its counter at [kNextAvailableTicket], the first number
    after the well-known tickets.  The [n] tickets it then issues, when
    the counter has room for them, are [kNextAvailableTicket],
    [kNextAvailableTicket + 1], ... in this order: strictly increasing,
    without repeats, the first one right after the last well-known
    ticket, every one above all well-known tickets, and no increment
    leaving the range of [int]. *)
Theorem tickets_issued_in_sequence (ti : TypeInfo) (n : nat)
    (Hroom : counter_has_room (SystemBase_default ti) n) :
  (∀ s, counter_has_room s 1 →
        assign_next_dependency_ticket s =
          (Ok (next_available_ticket_ s),
           with_next_available_ticket_ (next_available_ticket_ s + 1) s))
  ∧ next_available_ticket_ (SystemBase_default ti) = kNextAvailableTicket
  ∧ first_after_well_known kNextAvailableTicket
  ∧ ∃ (issued : list DependencyTicket) s',
      issue_tickets n (SystemBase_default ti) = (Ok issued, s')
      ∧ length issued = n
      ∧ next_available_ticket_ s' = kNextAvailableTicket + Z.of_nat n
      ∧ (∀ (i : nat) t, issued !! i = Some t →
           t = kNextAvailableTicket + Z.of_nat i)
      ∧ (∀ (i j : nat) a b,
           issued !! i = Some a → issued !! j = Some b → (i < j)%nat → a < b)
      ∧ NoDup issued
      ∧ (∀ t k, t ∈ issued → k ∈ well_known_tickets → k < t)
      ∧ (∀ t, issued !! 0%nat = Some t → t - 1 ∈ well_known_tickets)
      ∧ (∀ t, t ∈ issued → int_min ≤ t ∧ t + 1 ≤ int_max).
Proof.
  split; [intros s _; apply assign_next_dependency_ticket_run|].
  split; [reflexivity|].
  pose proof kNextAvailableTicket_first_after_well_known as Hk.
  split; [exact Hk|].
  destruct (issue_tickets_run n (SystemBase_default ti))
    as (s' & Hrun & Hnext & _).
  change (next_available_ticket_ (SystemBase_default ti))
    with kNextAvailableTicket in Hrun, Hnext.
  exists (seqZ kNextAvailableTicket (Z.of_nat n)), s'.
  destruct Hk as [Habove Hlast].
  destruct Hroom as [Hlo Hhi].
  change (next_available_ticket_ (SystemBase_default ti))
    with kNextAvailableTicket in Hlo, Hhi.
  split; [done|]. split; [rewrite length_seqZ; lia|]. split; [done|].
  split; [by intros i t [-> _]%lookup_seqZ|].
  split; [intros i j a b; apply seqZ_strictly_increasing|].
  split; [apply NoDup_seqZ|].
  split; [|split].
  - intros t k Ht%elem_of_seqZ Hin.
    rewrite Forall_forall in Habove. specialize (Habove k Hin). lia.
  - intros t [-> _]%lookup_seqZ.
    by replace (kNextAvailableTicket + Z.of_nat 0 - 1)
      with (kNextAvailableTicket - 1) by lia.
  - intros t Ht. by apply (seqZ_within_int kNextAvailableTicket n).
Qed.

(** ** Prerequisite lists *)

Lemma declare_accepted o (p : option (list DependencyTicket)) s :
  this_matches o s = true →
  default default_prerequisites p ≠ [] →
  nothing_not_sole (default default_prerequisites p) = false →
  let e := new_entry (description_of o) (alloc_of o) (calc_of o)
             (default default_prerequisites p) s in
  declare o p s = (Ok e, declared e s).
Proof.
  intros Hthis Hl Hn. simpl.
  rewrite declare_run, Hthis. by apply DeclareCacheEntry_accepted.
Qed.

(** A declaration that succeeded, taken apart. *)
Lemma declare_Ok_inv o (p : option (list DependencyTicket)) s e s' :
  declare o p s = (Ok e, s') →
  this_matches o s = true
  ∧ default default_prerequisites p ≠ []
  ∧ nothing_not_sole (default default_prerequisites p) = false
  ∧ e = new_entry (description_of o) (alloc_of o) (calc_of o)
          (default default_prerequisites p) s
  ∧ s' = declared e s.
Proof.
  rewrite declare_run, DeclareCacheEntry_run.
  destruct (this_matches o s); [|discriminate].
  case_bool_decide as Hl; [discriminate|].
  destruct (nothing_not_sole _); [discriminate|].
  intros [= <- <-]. done.
Qed.

(** A declaration that failed leaves the object as it was. *)
Lemma declare_Threw_inv o (p : option (list DependencyTicket)) s f s' :
  declare o p s = (Threw f, s') → s' = s.
Proof.
  rewrite declare_run, DeclareCacheEntry_run.
  destruct (this_matches o s); [|by intros [= _ <-]].
  case_bool_decide as Hl; [by intros [= _ <-]|].
  destruct (nothing_not_sole _); [by intros [= _ <-]|discriminate].
Qed.

(** C1, as amended.  The general form given the empty list fails with
    the [std::logic_error] of the empty prerequisite list, and adds no
    entry to the table.  Every overload called with an explicitly empty
    list fails and adds no entry: with that error when the call reaches
    the general form, and at the [DRAKE_DEMAND] of its runtime type check
    when a bound-method overload is called on an object of another
    type.  A call with a non-empty list, or with the list left out,
    never fails with the error of the empty list. *)
Theorem empty_prerequisites_rejected :
  (∀ d a c s,
     fst (DeclareCacheEntry d a c [] s)
       = Threw (logic_error empty_prerequisites_what)
     ∧ cache_entries_ (snd (DeclareCacheEntry d a c [] s))
       = cache_entries_ s)
  ∧ (∀ o s,
       fst (declare o (Some []) s)
         = Threw (if this_matches o s
                  then logic_error empty_prerequisites_what
                  else demand_failed "this_ptr != nullptr")
       ∧ cache_entries_ (snd (declare o (Some []) s)) = cache_entries_ s
       ∧ num_cache_entries (snd (declare o (Some []) s))
         = num_cache_entries s)
  ∧ (∀ o l s,
       l ≠ [] →
       fst (declare o (Some l) s)
         ≠ Threw (logic_error empty_prerequisites_what))
  ∧ (∀ o s,
       fst (declare o None s) ≠ Threw (logic_error empty_prerequisites_what)).
Proof.
  split; [intros; by rewrite DeclareCacheEntry_empty|].
  assert (Hne : ∀ o (p : option (list DependencyTicket)) s,
             default default_prerequisites p ≠ [] →
             fst (declare o p s)
               ≠ Threw (logic_error empty_prerequisites_what)).
  { intros o p s Hl. rewrite declare_run, DeclareCacheEntry_run.
    destruct (this_matches o s); [|discriminate].
    rewrite bool_decide_eq_false_2 by done.
    destruct (nothing_not_sole _); simpl; discriminate. }
  split; [|split].
  - intros o s.
    assert (E : declare o (Some []) s =
              (Threw (if this_matches o s
                      then logic_error empty_prerequisites_what
                      else demand_failed "this_ptr != nullptr"), s)).
    { rewrite declare_run. by destruct (this_matches o s). }
    by rewrite E.
  - intros o l s Hl. by apply Hne.
  - intros o s. by apply Hne.
Qed.

(** C5.  A prerequisite list that contains [nothing_ticket()] and a
    ticket other than it is rejected by every overload, and the object
    stays as it was; a call that reaches the general form is rejected
    there, for the misuse of [nothing_ticket()].  The list made of
    [nothing_ticket()] alone is accepted: the general form, and every
    bound-method overload whose runtime type check passes, declares the
    entry with that list. *)
Theorem nothing_ticket_must_be_sole o l (t : DependencyTicket) s :
  nothing_ticket ∈ l → t ∈ l → t ≠ nothing_ticket →
  (∃ f, declare o (Some l) s = (Threw f, s))
  ∧ (this_matches o s = true →
     declare o (Some l) s = (Threw (logic_error nothing_not_sole_what), s))
  ∧ (∀ d a c,
       DeclareCacheEntry d a c l s =
         (Threw (logic_error nothing_not_sole_what), s))
  ∧ (∀ d a c, ∃ e,
       DeclareCacheEntry d a c [nothing_ticket] s = (Ok e, declared e s)
       ∧ prerequisites e = [nothing_ticket])
  ∧ (this_matches o s = true →
     ∃ e, declare o (Some [nothing_ticket]) s = (Ok e, declared e s)
          ∧ prerequisites e = [nothing_ticket]).
Proof.
  intros Hn Ht Hne.
  pose proof (nothing_not_sole_true l t Hn Ht Hne) as Hbad.
  assert (Hgen : ∀ d a c,
             DeclareCacheEntry d a c l s =
               (Threw (logic_error nothing_not_sole_what), s))
    by (intros; by apply DeclareCacheEntry_nothing_not_sole).
  repeat split.
  - rewrite declare_run. destruct (this_matches o s); eauto.
  - intros Hthis. by rewrite declare_run, Hthis.
  - done.
  - intros d a c. eexists. split.
    + by apply DeclareCacheEntry_accepted, nothing_not_sole_singleton.
    + done.
  - intros Hthis. eexists. split.
    + by apply (declare_accepted o (Some [nothing_ticket]));
        [|simpl|apply nothing_not_sole_singleton].
    + done.
Qed.

(** ** The table after a declaration *)

Lemma num_cache_entries_declared e s :
  num_cache_entries (declared e s) = num_cache_entries s + 1.
Proof.
  unfold num_cache_entries, declared. simpl. rewrite length_app. simpl. lia.
Qed.

Lemma get_cache_entry_Some s (i : CacheIndex) e :
  get_cache_entry s i = Some e ↔
  0 ≤ i ∧ cache_entries_ s !! Z.to_nat i = Some e.
Proof.
  unfold get_cache_entry, num_cache_entries. case_bool_decide as Hi.
  - split; [intros Hlook; split; [lia|done]|by intros [_ Hlook]].
  - split; [done|]. intros [Hpos Hlook]. exfalso. apply Hi.
    apply lookup_lt_Some in Hlook. lia.
Qed.

Lemma get_cache_entry_declared_old e s (i : CacheIndex) :
  0 ≤ i < num_cache_entries s →
  get_cache_entry (declared e s) i = get_cache_entry s i.
Proof.
  intros Hi. unfold get_cache_entry.
  rewrite num_cache_entries_declared.
  rewrite !bool_decide_eq_true_2 by lia.
  unfold declared; simpl. apply lookup_app_l.
  unfold num_cache_entries in Hi. lia.
Qed.

Lemma get_cache_entry_declared_new e s :
  get_cache_entry (declared e s) (num_cache_entries s) = Some e.
Proof.
  apply get_cache_entry_Some. unfold num_cache_entries. split; [lia|].
  rewrite Nat2Z.id. unfold declared; simpl. by apply list_lookup_middle.
Qed.

Lemma cache_entry_ticket_run (index : CacheIndex) s :
  cache_entry_ticket index s =
    match get_cache_entry s index with
    | Some entry => (Ok (ticket entry), s)
    | None =>
        (Threw (demand_failed "0 <= index && index < num_cache_entries()"),
         s)
    end.
Proof.
  unfold cache_entry_ticket, get_cache_entry, DRAKE_DEMAND.
  unfold mbind, M_bind, gets. simpl.
  destruct (decide (0 ≤ index)) as [Hpos|Hneg];
    destruct (decide (index < num_cache_entries s)) as [Hlt|Hge].
  - rewrite !bool_decide_eq_true_2 by done. simpl.
    destruct (cache_entries_ s !! Z.to_nat index) as [entry|] eqn:Hlook;
      [done|].
    apply lookup_ge_None in Hlook. unfold num_cache_entries in Hlt. lia.
  - rewrite (bool_decide_eq_false_2 (index < _)) by done.
    rewrite (bool_decide_eq_false_2 (_ ≤ _ < _)) by lia.
    by rewrite andb_false_r.
  - rewrite (bool_decide_eq_false_2 (0 ≤ index)) by done.
    by rewrite (bool_decide_eq_false_2 (_ ≤ _ < _)) by lia.
  - rewrite (bool_decide_eq_false_2 (0 ≤ index)) by done.
    by rewrite (bool_decide_eq_false_2 (_ ≤ _ < _)) by lia.
Qed.

(** C4.  A call of any overload that leaves the prerequisite list out is
    the call with the list [{all_sources_ticket()}]: the two have the
    same outcome on every object.  When such a call succeeds, the entry
    it returns, which is the entry the table holds at its index, has
    exactly that one prerequisite; and it does succeed whenever the
    call reaches the general form. *)
Theorem omitted_prerequisites_are_all_sources o s :
  declare o None s = declare o (Some [all_sources_ticket]) s
  ∧ (∀ e s',
       declare o None s = (Ok e, s') →
       prerequisites e = [all_sources_ticket]
       ∧ get_cache_entry s' (cache_index e) = Some e)
  ∧ (this_matches o s = true →
     ∃ e, declare o None s = (Ok e, declared e s)
          ∧ prerequisites e = [all_sources_ticket]).
Proof.
  split; [reflexivity|]. split.
  - intros e s' (_ & _ & _ & -> & ->)%declare_Ok_inv. split; [done|].
    apply get_cache_entry_declared_new.
  - intros Hthis. eexists. split.
    + by apply (declare_accepted o None);
        [|simpl|apply nothing_not_sole_singleton].
    + reflexivity.
Qed.

(** ** Runs of calls *)

Lemma perform_all_cons (c : Call) (rest : list Call) s :
  perform_all (c :: rest) s =
    (from_option (λ e, [e]) [] (fst (perform c s))
       ++ fst (perform_all rest (snd (perform c s))),
     snd (perform_all rest (snd (perform c s)))).
Proof.
  cbn [perform_all]. destruct (perform c s) as [r s1]. cbn [fst snd].
  by destruct (perform_all rest s1) as [rs s2].
Qed.

(** One call either declares one entry, at the next index and with the
    next ticket, or leaves table and counter alone. *)
Lemma perform_cases (c : Call) s :
  (∃ e, perform c s = (Some e, declared e s)
        ∧ cache_index e = num_cache_entries s
        ∧ ticket e = next_available_ticket_ s)
  ∨ (∃ s', perform c s = (None, s')
           ∧ cache_entries_ s' = cache_entries_ s
           ∧ next_available_ticket_ s' = next_available_ticket_ s
           ∧ system_type s' = system_type s).
Proof.
  destruct c as [o p|n]; simpl.
  - destruct (declare o p s) as [[e|f] s1] eqn:Hd.
    + left. apply declare_Ok_inv in Hd as (_ & _ & _ & -> & ->).
      eexists. by repeat split.
    + right. apply declare_Threw_inv in Hd as ->. by exists s.
  - right. eexists. by repeat split.
Qed.

(** The table grows by the handles of the run, in order; each handle
    carries its position as index and the ticket of its position. *)
Lemma perform_all_invariant (calls : list Call) s
    (handles : list CacheEntry) s' :
  perform_all calls s = (handles, s') →
  cache_entries_ s' = cache_entries_ s ++ handles
  ∧ next_available_ticket_ s'
    = next_available_ticket_ s + Z.of_nat (length handles)
  ∧ system_type s' = system_type s
  ∧ (∀ (i : nat) e,
       handles !! i = Some e →
       cache_index e = num_cache_entries s + Z.of_nat i
       ∧ ticket e = next_available_ticket_ s + Z.of_nat i).
Proof.
  revert s handles s'.
  induction calls as [|c rest IH]; intros s handles s'.
  - intros [= <- <-]. rewrite app_nil_r. simpl.
    split; [done|]. split; [lia|]. split; [done|].
    intros i e Hi. by rewrite lookup_nil in Hi.
  - rewrite perform_all_cons.
    destruct (perform_all rest (snd (perform c s))) as [rs s2] eqn:Hrest.
    apply IH in Hrest as (Hentries & Hnext & Htype & Hpos).
    cbn [fst snd]. intros [= <- <-].
    destruct (perform_cases c s)
      as [(e & Hp & Hidx & Htick)|(s1 & Hp & He1 & Hn1 & Ht1)];
      rewrite Hp in *; cbn [fst snd from_option] in *.
    + rewrite Hentries, Hnext, Htype. unfold declared at 1 2 3.
      cbn [cache_entries_ next_available_ticket_ system_type].
      rewrite <- app_assoc.
      split; [done|]. split; [rewrite length_app; simpl; lia|].
      split; [done|].
      intros [|i] e' Hi; simpl in Hi.
      * injection Hi as <-. lia.
      * apply Hpos in Hi as [Hi1 Hi2].
        rewrite num_cache_entries_declared in Hi1. simpl in Hi2. lia.
    + rewrite Hentries, Hnext, Htype, He1, Hn1, Ht1. simpl.
      split; [done|]. split; [done|]. split; [done|].
      intros i e' Hi. apply Hpos in Hi as [Hi1 Hi2].
      unfold num_cache_entries in *.
      rewrite He1 in Hi1. rewrite Hn1 in Hi2. done.
Qed.

(** C3.  On a system brought from its construction to [s] by any run of
    calls, a declaration that succeeds, by whichever overload, appends
    exactly its entry to the table and advances the ticket counter by
    one: the count grows by one, the new entry has the previous count as
    index and the previous counter value as ticket, no earlier entry has
    that index or that ticket, and the earlier entries are where and
    what they were.  The table then lists the entries in the order of
    their declaration, and for every index [i] in range
    [cache_entry_ticket(i)] returns the ticket of the entry declared
    [i]-th and changes nothing. *)
Theorem successful_declaration_appends (ti : TypeInfo) (calls : list Call)
    (handles : list CacheEntry) s o (p : option (list DependencyTicket))
    e s' :
  perform_all calls (SystemBase_default ti) = (handles, s) →
  declare o p s = (Ok e, s') →
  cache_entries_ s' = cache_entries_ s ++ [e]
  ∧ num_cache_entries s' = num_cache_entries s + 1
  ∧ next_available_ticket_ s' = next_available_ticket_ s + 1
  ∧ cache_index e = num_cache_entries s
  ∧ ticket e = next_available_ticket_ s
  ∧ (∀ e', e' ∈ cache_entries_ s →
           cache_index e' ≠ cache_index e ∧ ticket e' ≠ ticket e)
  ∧ (∀ i, 0 ≤ i < num_cache_entries s →
          get_cache_entry s' i = get_cache_entry s i)
  ∧ get_cache_entry s' (cache_index e) = Some e
  ∧ cache_entries_ s' = handles ++ [e]
  ∧ (∀ i, 0 ≤ i < num_cache_entries s' →
          ∃ ei, (handles ++ [e]) !! Z.to_nat i = Some ei
                ∧ cache_index ei = i
                ∧ cache_entry_ticket i s' = (Ok (ticket ei), s')).
Proof.
  intros (Hentries & Hnext & _ & Hpos)%perform_all_invariant Hd.
  change (cache_entries_ s = handles) in Hentries.
  change (next_available_ticket_ s
          = kNextAvailableTicket + Z.of_nat (length handles)) in Hnext.
  change (∀ (i : nat) e0, handles !! i = Some e0 →
            cache_index e0 = 0 + Z.of_nat i
            ∧ ticket e0 = kNextAvailableTicket + Z.of_nat i) in Hpos.
  apply declare_Ok_inv in Hd as (_ & _ & _ & He & ->).
  assert (Hidx : cache_index e = num_cache_entries s) by by rewrite He.
  assert (Htick : ticket e = next_available_ticket_ s) by by rewrite He.
  assert (Hnum : num_cache_entries s = Z.of_nat (length handles))
    by (unfold num_cache_entries; by rewrite Hentries).
  assert (Hall : ∀ (i : nat) ei,
             (handles ++ [e]) !! i = Some ei →
             cache_index ei = Z.of_nat i
             ∧ ticket ei = kNextAvailableTicket + Z.of_nat i).
  { intros i ei [[Hlt Hi]|[-> <-]]%lookup_snoc_Some.
    - apply Hpos in Hi. by rewrite Z.add_0_l in Hi.
    - split; lia. }
  assert (Hold : ∀ e', e' ∈ cache_entries_ s →
             cache_index e' ≠ cache_index e ∧ ticket e' ≠ ticket e).
  { intros e' Hin. rewrite Hentries in Hin.
    apply list_elem_of_lookup in Hin as [j Hj].
    pose proof (lookup_lt_Some _ _ _ Hj) as Hlt.
    apply Hpos in Hj as [Hj1 Hj2]. split; lia. }
  split; [done|].
  split; [apply num_cache_entries_declared|].
  do 4 (split; [done|]).
  split; [intros i Hi; by apply get_cache_entry_declared_old|].
  split; [rewrite Hidx; apply get_cache_entry_declared_new|].
  split; [unfold declared; simpl; by rewrite Hentries|].
  intros i Hi. rewrite num_cache_entries_declared, Hnum in Hi.
  destruct ((handles ++ [e]) !! Z.to_nat i) as [ei|] eqn:Hlook.
  - exists ei. destruct (Hall _ _ Hlook) as [Hi1 Hi2].
    split; [done|]. split; [lia|].
    rewrite cache_entry_ticket_run.
    assert (Hget : get_cache_entry (declared e s) i = Some ei).
    { apply get_cache_entry_Some. split; [lia|].
      unfold declared; simpl. by rewrite Hentries. }
    by rewrite Hget.
  - apply lookup_ge_None in Hlook. rewrite length_app in Hlook.
    simpl in Hlook. lia.
Qed.

(** ** The bound-method overloads *)

(** C8.  An overload given member functions of the class [MySystem],
    called on an object that neither is a [MySystem] nor derives from
    it, fails at the [DRAKE_DEMAND] on the cast of [this], whatever the
    prerequisite list, before anything is registered: nothing that
    follows the check is run, and the object is as it was.  So a
    bound-method declaration that succeeded was made on an object of a
    matching type. *)
Theorem bound_method_checks_this o (p : option (list DependencyTicket)) s
    (MySystem : string) :
  owning_class o = Some MySystem →
  (dynamic_cast_succeeds MySystem (system_type s) = false →
   declare o p s = (Threw (demand_failed "this_ptr != nullptr"), s)
   ∧ (∀ A (m : M A),
        (demand_this_is MySystem;; m) s
        = (Threw (demand_failed "this_ptr != nullptr"), s))
   ∧ cache_entries_ (snd (declare o p s)) = cache_entries_ s
   ∧ next_available_ticket_ (snd (declare o p s)) = next_available_ticket_ s)
  ∧ (∀ e s',
       declare o p s = (Ok e, s') →
       dynamic_cast_succeeds MySystem (system_type s) = true).
Proof.
  intros Hown.
  assert (Hthis : this_matches o s
                  = dynamic_cast_succeeds MySystem (system_type s))
    by (unfold this_matches; by rewrite Hown).
  split.
  - intros Hcast.
    assert (E : declare o p s
                = (Threw (demand_failed "this_ptr != nullptr"), s))
      by (by rewrite declare_run, Hthis, Hcast).
    rewrite E. split; [done|]. split; [|done].
    intros A m. by rewrite guarded_run, Hcast.
  - intros e s'. rewrite declare_run, Hthis.
    by destruct (dynamic_cast_succeeds MySystem (system_type s)).
Qed.

(** C7.  The overload taking only [calc] is the model-value overload
    applied to [ValueType{}]: for every description, [calc] and
    prerequisite list, given or left out, the two calls have the same
    outcome on every object.  After the runtime type check both hand to
    the general form the description and the prerequisites as given, the
    calculator that casts the context and the container and runs
    [calc], and the allocator that holds the one value-initialized model
    and returns a clone of it for every context, without looking at the
    context; these are what the entry of a successful call has. *)
Theorem calc_only_is_model_value (MySystem MyContext : string) (T : TypeId)
    `{!DefaultConstructible T} (d : string) (calc : CalcMethod T) l s :
  DeclareCacheEntry_calc MySystem MyContext T d calc l s
    = DeclareCacheEntry_model MySystem MyContext T d value_initialized calc
        l s
  ∧ (∀ p : option (list DependencyTicket),
       declare (calc_only MySystem MyContext T _ d calc) p s
       = declare (model_and_calc MySystem MyContext T d value_initialized
                    calc) p s)
  ∧ DeclareCacheEntry_calc MySystem MyContext T d calc l s
    = (demand_this_is MySystem;;
       DeclareCacheEntry d (model_alloc_callback (Make T value_initialized))
         (method_calc_callback MyContext T calc) l) s
  ∧ (∀ context,
       model_alloc_callback (Make T value_initialized) context
       = Ok (Make T value_initialized))
  ∧ (∀ context (v : denote T),
       dynamic_cast_succeeds MyContext (context_type context) = true →
       method_calc_callback MyContext T calc context (Make T v)
       = x ← calc context v; Ok (Make T x))
  ∧ (∀ e s',
       DeclareCacheEntry_calc MySystem MyContext T d calc l s = (Ok e, s') →
       description e = d
       ∧ prerequisites e = l
       ∧ calc_function e = method_calc_callback MyContext T calc
       ∧ alloc_function e
         = model_alloc_callback (Make T value_initialized)).
Proof.
  split; [reflexivity|]. split; [reflexivity|]. split; [reflexivity|].
  split; [reflexivity|]. split.
  - intros context v Hcast.
    unfold method_calc_callback, dynamic_cast_context. rewrite Hcast.
    unfold mbind at 1. unfold Result_bind.
    by rewrite GetMutableValue_Make.
  - intros e s' Hdecl.
    change (declare (calc_only MySystem MyContext T _ d calc) (Some l) s
            = (Ok e, s')) in Hdecl.
    by apply declare_Ok_inv in Hdecl as (_ & _ & _ & -> & _).
Qed.

(** ** Names *)

(** C10.  For every string [n], [set_name(n)] returns normally and
    afterwards [GetSystemName()] is exactly [n]: nothing is rejected or
    rewritten, the empty name and a name containing the path delimiter
    included; the cache-entry table, the ticket counter and the dynamic
    type of the object are as before. *)
Theorem set_name_stores_verbatim s (n : string) :
  fst (set_name n s) = Ok tt
  ∧ GetSystemName (snd (set_name n s)) = n
  ∧ GetSystemName (snd (set_name "" s)) = ""
  ∧ GetSystemName (snd (set_name "a/b" s)) = "a/b"
  ∧ cache_entries_ (snd (set_name n s)) = cache_entries_ s
  ∧ next_available_ticket_ (snd (set_name n s)) = next_available_ticket_ s
  ∧ system_type (snd (set_name n s)) = system_type s.
Proof. repeat split. Qed.

(** ** Context compatibility *)

(** C9.  For every system class, object and context,
    [ThrowIfContextNotCompatible(context)] has the result of
    [CheckValidContext(context)], the same failure with the same
    message when there is one; called on an object, each leaves the
    object as it was. *)
Theorem ThrowIfContextNotCompatible_is_CheckValidContext
    `{!SystemVirtuals} s (context : ContextBase) :
  ThrowIfContextNotCompatible s context = CheckValidContext s context
  ∧ const_call (λ this, ThrowIfContextNotCompatible this context) s
    = const_call (λ this, CheckValidContext this context) s
  ∧ snd (const_call (λ this, ThrowIfContextNotCompatible this context) s)
    = s
  ∧ snd (const_call (λ this, CheckValidContext this context) s) = s.
Proof. repeat split. Qed.

(** C6, as amended.  [CheckValidContext(context)], and with it
    [ThrowIfContextNotCompatible(context)], makes no check of its own:
    its result is the result of the hook [DoCheckValidContext], so a
    context the hook accepts is accepted and one it rejects is rejected
    with the hook's failure. *)
Theorem CheckValidContext_is_the_hook
    `{!SystemVirtuals} s (context : ContextBase) :
  CheckValidContext s context = DoCheckValidContext s context
  ∧ ThrowIfContextNotCompatible s context = DoCheckValidContext s context.
Proof. split; reflexivity. Qed.
(** ** Looking up a ticket by index *)

Lemma cache_entry_ticket_keeps_object (index : CacheIndex) s :
  snd (cache_entry_ticket index s) = s.
Proof.
  rewrite cache_entry_ticket_run. by destruct (get_cache_entry s index).
Qed.

(** X1.  [cache_entry_ticket(index)] never changes the object.  For an
    index in the range of the table it returns the ticket of the entry
    at that index, the entry [get_cache_entry] returns; for a negative
    index or one at or past [num_cache_entries()] it fails at its
    [DRAKE_DEMAND].  On a table without entries, as that of a newly
    constructed system, every index fails. *)
Theorem cache_entry_ticket_in_and_out_of_range s (index : CacheIndex) :
  snd (cache_entry_ticket index s) = s
  ∧ (0 ≤ index < num_cache_entries s →
     ∃ e, get_cache_entry s index = Some e
          ∧ cache_entries_ s !! Z.to_nat index = Some e
          ∧ cache_entry_ticket index s = (Ok (ticket e), s))
  ∧ (index < 0 ∨ num_cache_entries s ≤ index →
     cache_entry_ticket index s =
       (Threw (demand_failed "0 <= index && index < num_cache_entries()"),
        s))
  ∧ (∀ ti, fst (cache_entry_ticket index (SystemBase_default ti)) =
             Threw (demand_failed
                      "0 <= index && index < num_cache_entries()")).
Proof.
  assert (Hout : ∀ s0, index < 0 ∨ num_cache_entries s0 ≤ index →
            cache_entry_ticket index s0 =
              (Threw (demand_failed
                        "0 <= index && index < num_cache_entries()"), s0)).
  { intros s0 Hi. rewrite cache_entry_ticket_run.
    unfold get_cache_entry. by rewrite bool_decide_eq_false_2 by lia. }
  split; [|split; [|split]].
  - apply cache_entry_ticket_keeps_object.
  - intros Hi.
    destruct (cache_entries_ s !! Z.to_nat index) as [e|] eqn:Hlook.
    + exists e.
      assert (Hget : get_cache_entry s index = Some e)
        by (apply get_cache_entry_Some; split; [lia|done]).
      split; [done|]. split; [done|].
      by rewrite cache_entry_ticket_run, Hget.
    + apply lookup_ge_None in Hlook. unfold num_cache_entries in Hi. lia.
  - apply Hout.
  - intros ti. rewrite Hout; [done|].
    unfold num_cache_entries. simpl. lia.
Qed.

(** ** The callbacks the bound-method overloads build *)

Lemma make_alloc_callback_Ok_inv (MyContext : string) (T : TypeId)
    (make : MakeMethod T) (context : ContextBase) (v : AbstractValue) :
  make_alloc_callback MyContext T make context = Ok v →
  dynamic_cast_succeeds MyContext (context_type context) = true
  ∧ ∃ x, make context = Ok x ∧ v = Make T x.
Proof.
  unfold make_alloc_callback, dynamic_cast_context.
  destruct (dynamic_cast_succeeds MyContext (context_type context));
    [|done].
  unfold mbind, Result_bind, mret, Result_ret.
  destruct (make context) as [x|f]; [|done].
  intros [= <-]. eauto.
Qed.

(** X2.  The allocator lambda of the make-and-calc overload casts the
    context first: on a context that is not a [MyContext] it fails with
    [std::bad_cast] whatever [make] is; otherwise it is [make] on that
    context, a failure of [make] passed on and its value wrapped as a
    container of type [ValueType].  Whatever it allocates has type
    [ValueType]. *)
Theorem make_alloc_callback_checked (MyContext : string) (T : TypeId)
    (make : MakeMethod T) (context : ContextBase) :
  (dynamic_cast_succeeds MyContext (context_type context) = false →
   make_alloc_callback MyContext T make context = Threw bad_cast)
  ∧ (dynamic_cast_succeeds MyContext (context_type context) = true →
     make_alloc_callback MyContext T make context
     = match make context with
       | Ok x => Ok (Make T x)
       | Threw f => Threw f
       end)
  ∧ (∀ v, make_alloc_callback MyContext T make context = Ok v →
          value_type v = T
          ∧ dynamic_cast_succeeds MyContext (context_type context) = true
          ∧ ∃ x, make context = Ok x ∧ v = Make T x).
Proof.
  split; [|split].
  - intros Hcast. unfold make_alloc_callback, dynamic_cast_context.
    by rewrite Hcast.
  - intros Hcast. unfold make_alloc_callback, dynamic_cast_context.
    rewrite Hcast. unfold mbind, Result_bind, mret, Result_ret.
    by destruct (make context).
  - intros v (Hcast & x & Hmake & ->)%make_alloc_callback_Ok_inv.
    split; [done|]. split; [done|]. eauto.
Qed.

(** X3.  The calculator lambda of the bound-method overloads checks both
    of its arguments before it runs [calc]: a context that is not a
    [MyContext] makes it fail with [std::bad_cast], and a container that
    does not hold a [ValueType] makes it fail, whatever [calc] is.  When
    it succeeds, the context was a [MyContext] and the container held a
    [ValueType] before and holds one after. *)
Theorem method_calc_callback_checked (MyContext : string) (T : TypeId)
    (calc : CalcMethod T) (context : ContextBase) (v : AbstractValue) :
  (dynamic_cast_succeeds MyContext (context_type context) = false →
   method_calc_callback MyContext T calc context v = Threw bad_cast)
  ∧ (value_type v ≠ T →
     succeeded (method_calc_callback MyContext T calc context v) = false)
  ∧ (∀ v', method_calc_callback MyContext T calc context v = Ok v' →
           dynamic_cast_succeeds MyContext (context_type context) = true
           ∧ value_type v = T
           ∧ value_type v' = T).
Proof.
  unfold method_calc_callback, dynamic_cast_context, GetMutableValue.
  unfold mbind, Result_bind, mret, Result_ret.
  destruct (dynamic_cast_succeeds MyContext (context_type context));
    destruct (decide (value_type v = T)) as [E|NE];
    (split; [done|]); (split; [done|]); try done.
  intros v'. destruct (calc _ _) as [y|f]; [|done].
  by intros [= <-].
Qed.

(** X4.  In the make-and-calc overload the two lambdas agree on the
    type: a container the allocator returned for a context is accepted
    by the calculator for that context, and calculating into it is
    [calc] run on the value [make] gave, wrapped again as a
    [ValueType]. *)
Theorem make_alloc_then_calc (MyContext : string) (T : TypeId)
    (make : MakeMethod T) (calc : CalcMethod T) (context : ContextBase)
    (v : AbstractValue) :
  make_alloc_callback MyContext T make context = Ok v →
  ∃ x, make context = Ok x
       ∧ v = Make T x
       ∧ method_calc_callback MyContext T calc context v
         = match calc context x with
           | Ok y => Ok (Make T y)
           | Threw f => Threw f
           end.
Proof.
  intros Halloc.
  apply make_alloc_callback_Ok_inv in Halloc
    as (Hcast & x & Hmake & ->).
  exists x. split; [done|]. split; [done|].
  unfold method_calc_callback, dynamic_cast_context. rewrite Hcast.
  unfold mbind at 1. unfold Result_bind.
  by rewrite GetMutableValue_Make.
Qed.

(** X5.  The allocator lambda of the model-value overload does not look
    at the context: for every context, of whatever type, it returns a
    container holding the model value, so two allocations give equal
    containers.  The calculator of the same overload accepts that
    container, and calculating into it is the cast of the context
    followed by [calc] run on the model value. *)
Theorem model_alloc_then_calc (MyContext : string) (T : TypeId)
    (model_value : denote T) (calc : CalcMethod T)
    (context context' : ContextBase) :
  model_alloc_callback (Make T model_value) context
    = Ok (Make T model_value)
  ∧ model_alloc_callback (Make T model_value) context
    = model_alloc_callback (Make T model_value) context'
  ∧ (∀ v, model_alloc_callback (Make T model_value) context = Ok v →
          method_calc_callback MyContext T calc context v
          = if dynamic_cast_succeeds MyContext (context_type context)
            then match calc context model_value with
                 | Ok y => Ok (Make T y)
                 | Threw f => Threw f
                 end
            else Threw bad_cast).
Proof.
  split; [reflexivity|]. split; [reflexivity|].
  intros v [= <-]. unfold Clone. cbn [value_type payload].
  unfold method_calc_callback, dynamic_cast_context.
  destruct (dynamic_cast_succeeds MyContext (context_type context));
    [|done].
  unfold mbind at 1. unfold Result_bind.
  by rewrite GetMutableValue_Make.
Qed.

(** ** Runs of the member functions the header defines *)

Lemma run_members_cons (c : MemberCall) (rest : list MemberCall) s :
  run_members (c :: rest) s =
    (from_option (λ t, [t]) [] (fst (run_member c s))
       ++ fst (run_members rest (snd (run_member c s))),
     snd (run_members rest (snd (run_member c s)))).
Proof.
  cbn [run_members]. destruct (run_member c s) as [t s1]. cbn [fst snd].
  by destruct (run_members rest s1) as [ts s2].
Qed.

Lemma run_member_frame (c : MemberCall) s :
  cache_entries_ (snd (run_member c s)) = cache_entries_ s
  ∧ system_type (snd (run_member c s)) = system_type s.
Proof.
  destruct c as [n|i|]; simpl; [done| |done].
  by rewrite cache_entry_ticket_keeps_object.
Qed.

Lemma run_members_frame (calls : list MemberCall) s :
  cache_entries_ (snd (run_members calls s)) = cache_entries_ s
  ∧ system_type (snd (run_members calls s)) = system_type s.
Proof.
  revert s. induction calls as [|c rest IH]; intros s; [done|].
  rewrite run_members_cons. cbn [snd].
  destruct (IH (snd (run_member c s))) as [-> ->].
  apply run_member_frame.
Qed.

Lemma run_members_name (calls : list MemberCall) s :
  GetSystemName (snd (run_members calls s))
  = default (GetSystemName s) (last (names_supplied calls)).
Proof.
  revert s. induction calls as [|c rest IH]; intros s; [done|].
  rewrite run_members_cons. cbn [snd]. rewrite IH.
  destruct c as [n|i|]; simpl.
  - unfold names_supplied. cbn [omap list_omap]. rewrite last_cons.
    by destruct (last _).
  - by rewrite cache_entry_ticket_keeps_object.
  - done.
Qed.

Lemma run_members_tickets (calls : list MemberCall) s :
  fst (run_members calls s)
    = seqZ (next_available_ticket_ s) (Z.of_nat (issuances calls))
  ∧ next_available_ticket_ (snd (run_members calls s))
    = next_available_ticket_ s + Z.of_nat (issuances calls).
Proof.
  revert s. induction calls as [|c rest IH]; intros s.
  - simpl. split; [done|]. unfold issuances. simpl. lia.
  - rewrite run_members_cons. cbn [fst snd].
    destruct (IH (snd (run_member c s))) as [-> ->].
    destruct c as [n|i|];
      cbn [run_member fst snd from_option app set_name modify
           assign_next_dependency_ticket with_name_
           with_next_available_ticket_ next_available_ticket_].
    + done.
    + by rewrite cache_entry_ticket_keeps_object.
    + rewrite assign_next_dependency_ticket_run.
      cbn [fst snd from_option app with_next_available_ticket_
           next_available_ticket_].
      change (issuances (member_assign_next_dependency_ticket :: rest))
        with (S (issuances rest)).
      rewrite (seqZ_cons _ (Z.of_nat (S (issuances rest)))) by lia.
      split; [|lia]. repeat f_equal; lia.
Qed.

(** X6.  Whatever calls of [set_name], [cache_entry_ticket] and
    [assign_next_dependency_ticket] are made on a system, in whatever
    order: the cache-entry table and the dynamic type of the object stay
    as they were, so every ticket lookup answers afterwards as before;
    and [GetSystemName()] is the name of the last [set_name] of the run,
    or the name from before the run when it has none. *)
Theorem member_calls_keep_the_table (calls : list MemberCall) s :
  cache_entries_ (snd (run_members calls s)) = cache_entries_ s
  ∧ system_type (snd (run_members calls s)) = system_type s
  ∧ num_cache_entries (snd (run_members calls s)) = num_cache_entries s
  ∧ (∀ i, fst (cache_entry_ticket i (snd (run_members calls s)))
          = fst (cache_entry_ticket i s))
  ∧ GetSystemName (snd (run_members calls s))
    = default (GetSystemName s) (last (names_supplied calls)).
Proof.
  destruct (run_members_frame calls s) as [Hentries Htype].
  split; [done|]. split; [done|].
  split; [unfold num_cache_entries; by rewrite Hentries|].
  split; [|apply run_members_name].
  intros i. rewrite !cache_entry_ticket_run.
  unfold get_cache_entry, num_cache_entries. rewrite Hentries.
  case_bool_decide; [|done].
  by destruct (cache_entries_ s !! Z.to_nat i).
Qed.

(** X7.  Over any such run, from any state of the object whose counter
    has room for the issuances of the run, the tickets issued are
    consecutive from the value the counter had before the run, however
    the issuances are interleaved with the other calls: as many as the
    run has issuances, strictly increasing, without repeats, none of
    their increments leaving the range of [int], and the counter ends
    that many higher. *)
Theorem member_calls_issue_consecutive_tickets (calls : list MemberCall) s :
  counter_has_room s (issuances calls) →
  fst (run_members calls s)
    = seqZ (next_available_ticket_ s) (Z.of_nat (issuances calls))
  ∧ next_available_ticket_ (snd (run_members calls s))
    = next_available_ticket_ s + Z.of_nat (issuances calls)
  ∧ length (fst (run_members calls s)) = issuances calls
  ∧ NoDup (fst (run_members calls s))
  ∧ (∀ (i j : nat) a b,
       fst (run_members calls s) !! i = Some a →
       fst (run_members calls s) !! j = Some b →
       (i < j)%nat → a < b)
  ∧ (∀ t, t ∈ fst (run_members calls s) →
          int_min ≤ t ∧ t + 1 ≤ int_max).
Proof.
  intros [Hlo Hhi].
  destruct (run_members_tickets calls s) as [Htickets Hnext].
  rewrite Htickets.
  split; [done|]. split; [done|].
  split; [rewrite length_seqZ; lia|].
  split; [apply NoDup_seqZ|].
  split; [intros i j a b; apply seqZ_strictly_increasing|].
  intros t Ht.
  by apply (seqZ_within_int (next_available_ticket_ s) (issuances calls)).
Qed.
End Properties.

(** * The properties at work on the small program *)

Import Sample.

(** C6 fails as stated: a system without cache entries, of a class whose
    hook accepts every context, is given a context with three cache
    slots and two subcontexts; the entry counts differ, and both checks
    return normally. *)
Lemma CheckValidContext_accepts_mismatch :
  entry_count_mismatch (SystemBase_default Pendulum) big_context
  ∧ @DoCheckValidContext _ accepts_all (SystemBase_default Pendulum)
      big_context = Ok tt
  ∧ @CheckValidContext _ accepts_all (SystemBase_default Pendulum)
      big_context = Ok tt
  ∧ @ThrowIfContextNotCompatible _ accepts_all (SystemBase_default Pendulum)
      big_context = Ok tt.
Proof.
  split; [|repeat split].
  intros E. vm_compute in E. discriminate E.
Qed.

(** C2 on the sample numbering: three tickets issued by a new pendulum. *)
Lemma tickets_issued_in_sequence_witness :
  counter_has_room pendulum 3
  ∧ first_after_well_known kNextAvailableTicket
  ∧ ∃ (issued : list DependencyTicket) s',
      issue_tickets 3 pendulum = (Ok issued, s')
      ∧ length issued = 3%nat
      ∧ next_available_ticket_ s' = 21
      ∧ NoDup issued
      ∧ (∀ t k, t ∈ issued → k ∈ well_known_tickets → k < t)
      ∧ (∀ t, t ∈ issued → int_min ≤ t ∧ t + 1 ≤ int_max).
Proof.
  assert (Hroom : counter_has_room pendulum 3)
    by (vm_compute; split; discriminate).
  split; [exact Hroom|].
  destruct (tickets_issued_in_sequence Pendulum 3 Hroom)
    as (_ & _ & Hfirst & issued & s' & Hrun & Hlen & Hnext & _ & _ & Hnodup
        & Habove & _ & Hint).
  split; [exact Hfirst|].
  exists issued, s'.
  split; [exact Hrun|]. split; [exact Hlen|]. split; [exact Hnext|].
  split; [exact Hnodup|]. split; [exact Habove|exact Hint].
Defined.

(** C3 on the sample run: the second entry of the pendulum. *)
Lemma successful_declaration_appends_witness :
  perform_all first_calls pendulum = ([constant_entry], named_pendulum)
  ∧ declare slots_overload None named_pendulum
    = (Ok slots_entry, declared slots_entry named_pendulum)
  ∧ num_cache_entries (declared slots_entry named_pendulum)
    = num_cache_entries named_pendulum + 1
  ∧ cache_entries_ (declared slots_entry named_pendulum)
    = [constant_entry] ++ [slots_entry]
  ∧ ∃ ei, ([constant_entry] ++ [slots_entry]) !! Z.to_nat 1 = Some ei
          ∧ cache_index ei = 1
          ∧ cache_entry_ticket 1 (declared slots_entry named_pendulum)
            = (Ok (ticket ei), declared slots_entry named_pendulum).
Proof.
  assert (Hrun : perform_all first_calls pendulum
                 = ([constant_entry], named_pendulum)) by reflexivity.
  assert (Hdecl : declare slots_overload None named_pendulum
                  = (Ok slots_entry, declared slots_entry named_pendulum))
    by reflexivity.
  destruct (successful_declaration_appends Pendulum first_calls
              [constant_entry] named_pendulum slots_overload None
              slots_entry (declared slots_entry named_pendulum) Hrun Hdecl)
    as (_ & Hnum & _ & _ & _ & _ & _ & _ & Htable & Hticket).
  split; [exact Hrun|]. split; [exact Hdecl|]. split; [exact Hnum|].
  split; [exact Htable|].
  apply Hticket. vm_compute. split; [discriminate|reflexivity].
Defined.

(** C5 on the sample: [nothing_ticket()] next to [time_ticket()]. *)
Lemma nothing_ticket_must_be_sole_witness :
  nothing_ticket ∈ [nothing_ticket; time_ticket]
  ∧ time_ticket ∈ [nothing_ticket; time_ticket]
  ∧ time_ticket ≠ nothing_ticket
  ∧ declare (callbacks "constant" alloc_zero calc_keep)
      (Some [nothing_ticket; time_ticket]) pendulum
    = (Threw (logic_error nothing_not_sole_what), pendulum)
  ∧ ∃ e, declare (callbacks "constant" alloc_zero calc_keep)
           (Some [nothing_ticket]) pendulum = (Ok e, declared e pendulum)
         ∧ prerequisites e = [nothing_ticket].
Proof.
  assert (H1 : nothing_ticket ∈ [nothing_ticket; time_ticket])
    by constructor.
  assert (H2 : time_ticket ∈ [nothing_ticket; time_ticket])
    by (constructor; constructor).
  assert (H3 : time_ticket ≠ nothing_ticket)
    by (intros E; vm_compute in E; discriminate E).
  destruct (nothing_ticket_must_be_sole
              (callbacks "constant" alloc_zero calc_keep)
              [nothing_ticket; time_ticket] time_ticket pendulum H1 H2 H3)
    as (_ & Hrej & _ & _ & Hsole).
  split; [exact H1|]. split; [exact H2|]. split; [exact H3|].
  split; [by apply Hrej|by apply Hsole].
Defined.

(** C8 on the sample: member functions of [Adder] bound on a pendulum. *)
Lemma bound_method_checks_this_witness :
  owning_class adder_overload = Some "Adder"
  ∧ dynamic_cast_succeeds "Adder" (system_type pendulum) = false
  ∧ declare adder_overload None pendulum
    = (Threw (demand_failed "this_ptr != nullptr"), pendulum)
  ∧ declare adder_overload (Some []) pendulum
    = (Threw (demand_failed "this_ptr != nullptr"), pendulum).
Proof.
  assert (Hown : owning_class adder_overload = Some "Adder")
    by reflexivity.
  assert (Hcast : dynamic_cast_succeeds "Adder" (system_type pendulum)
                  = false) by reflexivity.
  split; [exact Hown|]. split; [exact Hcast|]. split.
  - exact (proj1 (proj1 (bound_method_checks_this adder_overload None
                           pendulum "Adder" Hown) Hcast)).
  - exact (proj1 (proj1 (bound_method_checks_this adder_overload (Some [])
                           pendulum "Adder" Hown) Hcast)).
Defined.

(** C1 fails as stated: the make-and-calc overload given member
    functions of [Adder], called with an explicitly empty list on a
    pendulum, fails at the runtime type check and not with the logic
    error of the empty list. *)
Lemma empty_list_on_mismatched_object :
  this_matches adder_overload pendulum = false
  ∧ declare adder_overload (Some []) pendulum
    = (Threw (demand_failed "this_ptr != nullptr"), pendulum)
  ∧ fst (declare adder_overload (Some []) pendulum)
    ≠ Threw (logic_error empty_prerequisites_what).
Proof.
  split; [reflexivity|]. split; [reflexivity|].
  intros E. vm_compute in E. discriminate E.
Defined.

(** C1, as amended, on the sample: the calc-only overload with an empty
    list on the pendulum, and the overload of another class. *)
Lemma empty_prerequisites_rejected_witness :
  (fst (declare slots_overload (Some []) named_pendulum)
   = Threw (logic_error empty_prerequisites_what)
   ∧ cache_entries_ (snd (declare slots_overload (Some []) named_pendulum))
     = cache_entries_ named_pendulum
   ∧ num_cache_entries (snd (declare slots_overload (Some [])
                               named_pendulum))
     = num_cache_entries named_pendulum)
  ∧ (fst (declare adder_overload (Some []) named_pendulum)
     = Threw (demand_failed "this_ptr != nullptr")
     ∧ cache_entries_ (snd (declare adder_overload (Some [])
                              named_pendulum))
       = cache_entries_ named_pendulum
     ∧ num_cache_entries (snd (declare adder_overload (Some [])
                                 named_pendulum))
       = num_cache_entries named_pendulum).
Proof.
  split.
  - exact (proj1 (proj2 empty_prerequisites_rejected)
             slots_overload named_pendulum).
  - exact (proj1 (proj2 empty_prerequisites_rejected)
             adder_overload named_pendulum).
Defined.

(** C4 on the sample: the list left out of the calc-only overload. *)
Lemma omitted_prerequisites_are_all_sources_witness :
  this_matches slots_overload named_pendulum = true
  ∧ ∃ e, declare slots_overload None named_pendulum
         = (Ok e, declared e named_pendulum)
         ∧ prerequisites e = [all_sources_ticket].
Proof.
  split; [reflexivity|].
  exact (proj2 (proj2 (omitted_prerequisites_are_all_sources slots_overload
                         named_pendulum)) eq_refl).
Defined.

(** C7 on the sample: the entry of the calc-only declaration. *)
Lemma calc_only_is_model_value_witness :
  DeclareCacheEntry_calc "Pendulum" "LeafContext" t_int "slots" CalcSlots
    [all_sources_ticket] named_pendulum
  = (Ok slots_entry, declared slots_entry named_pendulum)
  ∧ description slots_entry = "slots"
  ∧ prerequisites slots_entry = [all_sources_ticket]
  ∧ calc_function slots_entry
    = method_calc_callback "LeafContext" t_int CalcSlots
  ∧ alloc_function slots_entry
    = model_alloc_callback (Make t_int value_initialized).
Proof.
  assert (Hdecl : DeclareCacheEntry_calc "Pendulum" "LeafContext" t_int
                    "slots" CalcSlots [all_sources_ticket] named_pendulum
                  = (Ok slots_entry, declared slots_entry named_pendulum))
    by reflexivity.
  split; [exact Hdecl|].
  exact (proj2 (proj2 (proj2 (proj2 (proj2
           (calc_only_is_model_value "Pendulum" "LeafContext" t_int "slots"
              CalcSlots [all_sources_ticket] named_pendulum)))))
           slots_entry (declared slots_entry named_pendulum) Hdecl).
Defined.

(** X4 on the sample: the make-and-calc lambdas on the big context. *)
Lemma make_alloc_then_calc_witness :
  make_alloc_callback "LeafContext" t_int MakeZero big_context
  = Ok (Make t_int 0)
  ∧ ∃ x, MakeZero big_context = Ok x
         ∧ Make t_int 0 = Make t_int x
         ∧ method_calc_callback "LeafContext" t_int CalcSlots big_context
             (Make t_int 0)
           = match CalcSlots big_context x with
             | Ok y => Ok (Make t_int y)
             | Threw f => Threw f
             end.
Proof.
  assert (Halloc : make_alloc_callback "LeafContext" t_int MakeZero
                     big_context = Ok (Make t_int 0)) by reflexivity.
  split; [exact Halloc|].
  exact (make_alloc_then_calc "LeafContext" t_int MakeZero CalcSlots
           big_context (Make t_int 0) Halloc).
Defined.

(** X7 on the sample: three issuances among other calls on a new
    pendulum. *)
Lemma member_calls_issue_consecutive_tickets_witness :
  counter_has_room pendulum (issuances interleaved_calls)
  ∧ fst (run_members interleaved_calls pendulum) = [18; 19; 20]
  ∧ next_available_ticket_ (snd (run_members interleaved_calls pendulum))
    = 21.
Proof.
  assert (Hroom : counter_has_room pendulum (issuances interleaved_calls))
    by (vm_compute; split; discriminate).
  destruct (member_calls_issue_consecutive_tickets interleaved_calls
              pendulum Hroom) as (Htickets & Hnext & _).
  split; [exact Hroom|]. split; [exact Htickets|exact Hnext].
Defined.
